(** * ENS wallet decorator and chain contract directory

    A shallow embedding of two files of the ensjs package:

    - [contracts/consts.ts]: the static tables [supportedChains],
      [supportedContracts], [addresses], [subgraphs] and the conditional
      type [CheckedChainWithEns];
    - [clients/decorators/wallet.ts]: the decorator [ensWalletActions],
      which builds, from a wallet client, an object of seventeen methods,
      each of them an arrow function that calls one imported write
      function with the captured client and the parameter object.

    JavaScript objects are modelled as ordered property lists (an object
    literal keeps its keys in the order they are written), the store of
    objects as a [gmap] from locations, and the imported write functions,
    whose bodies are not part of these two files, as a section variable.
    Where a property needs what those functions do with the directory,
    module [Resolution] gives their contract as the specification states
    it. *)

From Stdlib Require Import ZArith Ascii String.
From stdpp Require Import base option strings list gmap fin_maps.

Local Open Scope string_scope.
Local Open Scope list_scope.

(** ** JavaScript property lists *)

Module Js.

(** [obj[k]] for an own property [k] of [obj]: the first binding of [k],
    and [None] when [obj] has no own property [k]. What an object inherits
    from [Object.prototype] ([constructor], [toString], ...) is not
    looked up. *)
Fixpoint get {A : Type} (k : string) (o : list (string * A)) : option A :=
  match o with
  | [] => None
  | (k', v) :: o' => if decide (k' = k) then Some v else get k o'
  end.

(** [Object.keys(obj)] *)
Definition keys {A : Type} (o : list (string * A)) : list string := o.*1.

(** [obj[k] = v]: an existing property keeps its position, a new one
    goes last. *)
Fixpoint set {A : Type} (k : string) (v : A) (o : list (string * A))
  : list (string * A) :=
  match o with
  | [] => [(k, v)]
  | (k', v') :: o' =>
      if decide (k' = k) then (k, v) :: o' else (k', v') :: set k v o'
  end.

End Js.

(** ** contracts/consts.ts *)

Module Consts.

Definition supportedChains : list string := ["homestead"; "goerli"].

Definition supportedContracts : list string :=
  [ "ensBaseRegistrarImplementation";
    "ensDnsRegistrar";
    "ensEthRegistrarController";
    "ensNameWrapper";
    "ensPublicResolver";
    "ensReverseRegistrar";
    "ensBulkRenewal";
    "ensDnssecImpl" ].

(** The [{ address: '0x...' }] entries of the table. *)
Record ChainContract := { address : string }.

Definition addresses : list (string * list (string * ChainContract)) :=
  [ ("homestead",
      [ ("ensBaseRegistrarImplementation",
          {| address := "0x57f1887a8bf19b14fc0df6fd9b2acc9af147ea85" |});
        ("ensDnsRegistrar",
          {| address := "0x58774Bb8acD458A640aF0B88238369A167546ef2" |});
        ("ensEthRegistrarController",
          {| address := "0x253553366Da8546fC250F225fe3d25d0C782303b" |});
        ("ensNameWrapper",
          {| address := "0xD4416b13d2b3a9aBae7AcD5D6C2BbDBE25686401" |});
        ("ensPublicResolver",
          {| address := "0x231b0Ee14048e9dCcD1d247744d114a4EB5E8E63" |});
        ("ensReverseRegistrar",
          {| address := "0xa58E81fe9b61B5c3fE2AFD33CF304c454AbFc7Cb" |});
        ("ensBulkRenewal",
          {| address := "0xa12159e5131b1eEf6B4857EEE3e1954744b5033A" |});
        ("ensDnssecImpl",
          {| address := "0x21745FF62108968fBf5aB1E07961CC0FCBeB2364" |}) ]);
    ("goerli",
      [ ("ensBaseRegistrarImplementation",
          {| address := "0x57f1887a8bf19b14fc0df6fd9b2acc9af147ea85" |});
        ("ensDnsRegistrar",
          {| address := "0x8edc487D26F6c8Fa76e032066A3D4F87E273515d" |});
        ("ensEthRegistrarController",
          {| address := "0xCc5e7dB10E65EED1BBD105359e7268aa660f6734" |});
        ("ensNameWrapper",
          {| address := "0x114D4603199df73e7D157787f8778E21fCd13066" |});
        ("ensPublicResolver",
          {| address := "0xd7a4F6473f32aC2Af804B3686AE8F19E48B8fF5f" |});
        ("ensReverseRegistrar",
          {| address := "0x6d9F26FfBcF1c6f0bAe9F2C1f7fBe8eE6B1d8d4d" |});
        ("ensBulkRenewal",
          {| address := "0x6d9F26FfBcF1c6f0bAe9F2C1f7fBe8eE6B1d8d4d" |});
        ("ensDnssecImpl",
          {| address := "0xF427c4AdED8B6dfde604865c1a7E953B160C26f0" |}) ]) ].

Record Subgraph := { url : string }.

Definition subgraphs : list (string * list (string * Subgraph)) :=
  [ ("homestead",
      [ ("ens",
          {| url := "https://api.thegraph.com/subgraphs/name/ensdomains/ens" |}) ]);
    ("goerli",
      [ ("ens",
          {| url := "https://api.thegraph.com/subgraphs/name/ensdomains/ensgoerli" |}) ]) ].

(** The cell of [addresses] under the own keys [chain] and [role];
    [None] when the table has no own entry for the chain, or the chain's
    entry none for the role. *)
Definition contractOf (chain role : string) : option ChainContract :=
  Js.get chain addresses ≫= Js.get role.

(** What the conditional type [CheckedChainWithEns<TChain>] adds to
    [TChain]: the two indexed members. *)
Record EnsMembers := {
  contracts : list (string * ChainContract);
  chainSubgraphs : list (string * Subgraph)
}.

(** [TChain['network'] extends SupportedChain ? TChain & {...} : never],
    as a function of the literal type of [TChain['network']]; [None] is
    [never]. *)
Definition CheckedChainWithEns (network : string) : option EnsMembers :=
  if decide (network ∈ supportedChains) then
    c ← Js.get network addresses;
    s ← Js.get network subgraphs;
    Some {| contracts := c; chainSubgraphs := s |}
  else None.

(** A 20-byte address in hexadecimal: [0x] and forty hex digits. *)
Definition isHexDigit (c : Ascii.ascii) : bool :=
  let n := Ascii.nat_of_ascii c in
  (Nat.leb 48 n && Nat.leb n 57) || (Nat.leb 65 n && Nat.leb n 70)
  || (Nat.leb 97 n && Nat.leb n 102).

Definition isAddress (a : string) : bool :=
  match a with
  | String "0"%char (String "x"%char digits) =>
      Nat.eqb (String.length digits) 40
      && forallb isHexDigit (String.list_ascii_of_string digits)
  | _ => false
  end.

(** Every cell of the table, chain by chain and role by role. *)
Definition complete : bool :=
  forallb (λ chain,
    forallb (λ role,
      match contractOf chain role with
      | Some c => isAddress (address c)
      | None => false
      end) supportedContracts) supportedChains.

End Consts.

(** ** clients/decorators/wallet.ts *)

Module Wallet.

(** References to objects of the JavaScript store. *)
Abbreviation loc := positive (only parsing).

(** The seventeen functions imported from [functions/write/*]. *)
Inductive WriteFn :=
| commitName | createSubname | deleteSubname | registerName | renewNames
| setAbiRecord | setAddressRecord | setChildFuses | setContentHashRecord
| setFuses | setPrimaryName | setRecords | setResolver | setTextRecord
| transferName | unwrapName | wrapName.

#[global] Instance WriteFn_eq_dec : EqDecision WriteFn.
Proof. solve_decision. Defined.

(** The identifier under which each function is imported. *)
Definition nameOf (f : WriteFn) : string :=
  match f with
  | commitName => "commitName"
  | createSubname => "createSubname"
  | deleteSubname => "deleteSubname"
  | registerName => "registerName"
  | renewNames => "renewNames"
  | setAbiRecord => "setAbiRecord"
  | setAddressRecord => "setAddressRecord"
  | setChildFuses => "setChildFuses"
  | setContentHashRecord => "setContentHashRecord"
  | setFuses => "setFuses"
  | setPrimaryName => "setPrimaryName"
  | setRecords => "setRecords"
  | setResolver => "setResolver"
  | setTextRecord => "setTextRecord"
  | transferName => "transferName"
  | unwrapName => "unwrapName"
  | wrapName => "wrapName"
  end.

(** JavaScript values.  [VArrow f client] is the closure of the arrow
    function [(parameters) => f(client, parameters)]: its code is fixed
    by [f], its environment holds the one captured variable [client]. *)
Inductive Value :=
| VUndefined
| VBoolean (b : bool)
| VNumber (n : Z)
| VBigInt (n : Z)
| VString (s : string)
| VRef (l : loc)
| VArrow (f : WriteFn) (client : loc).

(** An object: its own properties, in insertion order. *)
Abbreviation Obj := (list (string * Value)) (only parsing).

(** The object literal returned by [ensWalletActions(client)]. *)
Definition actionsOf (client : loc) : Obj :=
  [ ("commitName", VArrow commitName client);
    ("createSubname", VArrow createSubname client);
    ("deleteSubname", VArrow deleteSubname client);
    ("registerName", VArrow registerName client);
    ("renewNames", VArrow renewNames client);
    ("setAbiRecord", VArrow setAbiRecord client);
    ("setAddressRecord", VArrow setAddressRecord client);
    ("setChildFuses", VArrow setChildFuses client);
    ("setContentHashRecord", VArrow setContentHashRecord client);
    ("setFuses", VArrow setFuses client);
    ("setPrimaryName", VArrow setPrimaryName client);
    ("setRecords", VArrow setRecords client);
    ("setResolver", VArrow setResolver client);
    ("setTextRecord", VArrow setTextRecord client);
    ("transferName", VArrow transferName client);
    ("unwrapName", VArrow unwrapName client);
    ("wrapName", VArrow wrapName client) ].

(** Evaluating the literal allocates a new object in the store [h] and
    yields the reference to it. *)
Definition ensWalletActions (client : loc) (h : gmap loc Obj)
  : loc * gmap loc Obj :=
  let o := fresh (dom h) in
  (o, <[o := actionsOf client]> h).

(** [o[k] = v] on the object at [o]. *)
Definition setProp (o : loc) (k : string) (v : Value) (h : gmap loc Obj)
  : gmap loc Obj :=
  alter (Js.set k v) o h.

(** The seventeen names of the per-operation contract, as the keys are
    spelled in the code. *)
Definition operationNames : list string :=
  [ "commitName"; "createSubname"; "deleteSubname"; "registerName";
    "renewNames"; "setAbiRecord"; "setAddressRecord"; "setChildFuses";
    "setContentHashRecord"; "setFuses"; "setPrimaryName"; "setRecords";
    "setResolver"; "setTextRecord"; "transferName"; "unwrapName";
    "wrapName" ].

(** A call received by one of the imported write functions. *)
Record Call := {
  callee : WriteFn;
  clientArg : loc;
  parametersArg : gmap string Value
}.

(** How the promise returned by a write function settles. *)
Inductive Settled (Error : Type) :=
| Fulfilled (result : Value)
| Rejected (error : Error).
Arguments Fulfilled {Error} result.
Arguments Rejected {Error} error.

Section Invocation.

(** The write functions are collaborators defined elsewhere: whatever
    they do (encoding, reads, signing, submission) is a transition on
    a state [World] of their own, ending in a settled promise. *)
Variables World Error : Type.
Variable write :
  WriteFn → loc → gmap string Value → World → Settled Error * World.

(** The state outside the object store: the collaborators' world and
    the log of the calls they have received. *)
Record Ext := { world : World; calls : list Call }.

(** One call of an imported function, recorded. *)
Definition callWrite (f : WriteFn) (client : loc)
    (parameters : gmap string Value) (s : Ext) : Settled Error * Ext :=
  let '(r, w) := write f client parameters (world s) in
  (r, {| world := w;
         calls := calls s ++
           [ {| callee := f; clientArg := client;
                parametersArg := parameters |} ] |}).

(** Applying a value to one argument; only closures are callable
    ([None] is the TypeError of calling anything else). *)
Definition applyValue (m : Value) (parameters : gmap string Value)
    (s : Ext) : option (Settled Error * Ext) :=
  match m with
  | VArrow f client => Some (callWrite f client parameters s)
  | _ => None
  end.

(** [o[key](parameters)] in store [h], [key] being looked up among the
    object's own properties. *)
Definition invoke (h : gmap loc Obj) (o : loc) (key : string)
    (parameters : gmap string Value) (s : Ext)
  : option (Settled Error * Ext) :=
  obj ← h !! o;
  m ← Js.get key obj;
  applyValue m parameters s.

End Invocation.

Arguments world {World} _.
Arguments calls {World} _.
Arguments Build_Ext {World} _ _.
Arguments callWrite {World Error} write f client parameters s.
Arguments applyValue {World Error} write m parameters s.
Arguments invoke {World Error} write h o key parameters s.

(** The imported functions, in the order of the import list. *)
Definition allWriteFns : list WriteFn :=
  [ commitName; createSubname; deleteSubname; registerName; renewNames;
    setAbiRecord; setAddressRecord; setChildFuses; setContentHashRecord;
    setFuses; setPrimaryName; setRecords; setResolver; setTextRecord;
    transferName; unwrapName; wrapName ].

(** How many of the logged calls went to [g]. *)
Definition countCalls (g : WriteFn) (l : list Call) : nat :=
  length (filter (λ c, callee c = g) l).

(** One reading of the per-operation contract: the decorator itself fills
    in the field [flag] when the caller omits it, so that what the write
    function [f] is applied to is an object [p'] that has the field. *)
Definition defaultsApplied {World Error : Type}
    (write : WriteFn → loc → gmap string Value → World → Settled Error * World)
    (f : WriteFn) (flag : string) : Prop :=
  ∀ (h : gmap loc Obj) (client : loc) (p : gmap string Value) (s : Ext World),
    p !! flag = None →
    ∃ p' r s',
      is_Some (p' !! flag)
      ∧ invoke write (ensWalletActions client h).2
               (ensWalletActions client h).1 (nameOf f) p s = Some (r, s')
      ∧ (r, world s') = write f client p' (world s).

(** *** Data for the examples *)

(** A wallet client object, reduced to two of its properties. *)
Definition exampleClient : Obj :=
  [ ("type", VString "walletClient"); ("chain", VString "homestead") ].

(** The reference to it. *)
Definition exampleRef : loc := 1%positive.

(** A store that holds the client and nothing else. *)
Definition exampleStore : gmap loc Obj := {[ exampleRef := exampleClient ]}.

(** Collaborators that always succeed with the same transaction hash. *)
Definition fulfils (f : WriteFn) (client : loc) (p : gmap string Value)
    (w : unit) : Settled string * unit :=
  (Fulfilled (VString "0x1d4b"), w).

(** Collaborators whose submission always reverts. *)
Definition reverts (f : WriteFn) (client : loc) (p : gmap string Value)
    (w : unit) : Settled string * unit :=
  (Rejected "reverted", w).

(** The collaborators have received no call yet. *)
Definition noCalls : Ext unit := {| world := tt; calls := [] |}.

(** Collaborators that report what they are applied to: their state is
    the list of the functions, clients and parameter objects they were
    called with. *)
Definition reports (f : WriteFn) (client : loc) (p : gmap string Value)
    (w : list Call) : Settled string * list Call :=
  (Fulfilled (VString "0x1d4b"),
   w ++ [ {| callee := f; clientArg := client; parametersArg := p |} ]).

Definition noReports : Ext (list Call) := {| world := []; calls := [] |}.

(** The store after one extension of the example client, and after two. *)
Definition exampleStore1 : gmap loc Obj :=
  <[ 2%positive := actionsOf exampleRef ]> exampleStore.

Definition exampleStore2 : gmap loc Obj :=
  <[ 3%positive := actionsOf exampleRef ]> exampleStore1.

(** The parameter object of the [deleteSubname] example in the doc comment
    of [EnsWalletActions]: no [asOwner]. *)
Definition exampleDelete : gmap string Value :=
  {[ "name" := VString "sub.ens.eth"; "contract" := VString "registry" ]}.

(** A [registerName] parameter object with the override [value: 100n]. *)
Definition exampleRegister : gmap string Value :=
  {[ "name" := VString "test.eth"; "value" := VBigInt 100 ]}.

End Wallet.

(** ** Declared types

    The object types of the two files, as the lists of their members. *)

Module Types.

(** consts.ts, [type Subgraphs]. *)
Definition Subgraphs : list string := [ "ens" ].

(** consts.ts, [type EnsChainContracts]. *)
Definition EnsChainContracts : list string :=
  [ "ensBaseRegistrarImplementation";
    "ensDnsRegistrar";
    "ensEthRegistrarController";
    "ensNameWrapper";
    "ensPublicResolver";
    "ensReverseRegistrar";
    "ensBulkRenewal";
    "ensDnssecImpl" ].

(** consts.ts, [type BaseChainContracts]. *)
Definition BaseChainContracts : list string :=
  [ "multicall3"; "ensUniversalResolver"; "ensRegistry" ].

(** wallet.ts, [type EnsWalletActions]: each member with the fields its
    parameter pattern names, in order; every pattern ends in the rest
    element [...txArgs]. *)
Definition EnsWalletActions : list (string * list string) :=
  [ ("commitName",
      [ "name"; "owner"; "duration"; "secret"; "resolverAddress"; "records";
        "reverseRecord"; "fuses" ]);
    ("createSubname",
      [ "name"; "contract"; "owner"; "resolverAddress"; "expiry"; "fuses" ]);
    ("deleteSubname", [ "name"; "contract"; "asOwner" ]);
    ("registerName",
      [ "name"; "owner"; "duration"; "secret"; "resolverAddress"; "records";
        "reverseRecord"; "fuses"; "value" ]);
    ("renewNames", [ "nameOrNames"; "duration"; "value" ]);
    ("setAbiRecord", [ "name"; "encodedAbi"; "resolverAddress" ]);
    ("setAddressRecord", [ "name"; "coin"; "value"; "resolverAddress" ]);
    ("setChildFuses", [ "name"; "fuses"; "expiry" ]);
    ("setContentHashRecord", [ "name"; "contentHash"; "resolverAddress" ]);
    ("setFuses", [ "name"; "fuses" ]);
    ("setPrimaryName", [ "name"; "address"; "resolverAddress" ]);
    ("setRecords",
      [ "name"; "resolverAddress"; "clearRecords"; "contentHash"; "texts";
        "coins"; "abi" ]);
    ("setResolver", [ "name"; "contract"; "resolverAddress" ]);
    ("setTextRecord", [ "name"; "key"; "value"; "resolverAddress" ]);
    ("transferName",
      [ "name"; "newOwnerAddress"; "contract"; "reclaim"; "asParent" ]);
    ("unwrapName", [ "name"; "newOwnerAddress"; "newRegistrantAddress" ]);
    ("wrapName", [ "name"; "newOwnerAddress"; "fuses"; "resolverAddress" ]) ].

End Types.

(** ** More data for the examples *)

Module Examples.
Import Wallet.

(** A second wallet client, on the other chain. *)
Definition otherClient : Obj :=
  [ ("type", VString "walletClient"); ("chain", VString "goerli") ].

Definition otherRef : loc := 2%positive.

(** A store that holds the two clients, then the extension of the first,
    then that of the second as well. *)
Definition twoClients : gmap loc Obj :=
  {[ exampleRef := exampleClient; otherRef := otherClient ]}.

Definition twoClients1 : gmap loc Obj :=
  <[ 3%positive := actionsOf exampleRef ]> twoClients.

Definition twoClients2 : gmap loc Obj :=
  <[ 4%positive := actionsOf otherRef ]> twoClients1.

(** The parameter object of the [commitName] example in the doc comment
    of [EnsWalletActions], without its random secret. *)
Definition exampleCommit : gmap string Value :=
  {[ "name" := VString "example.eth";
     "owner" := VString "0xFe89cc7aBB2C4183683ab71653C4cdc9B02D44b7";
     "duration" := VNumber 31536000 ]}.

End Examples.

(** ** Contract address resolution

    The write functions and the lookup they use are not part of the two
    files; what follows is their contract as the specification gives
    it. *)

Module Resolution.
Import Consts Wallet.

(** The configuration errors of the lookup. *)
Inductive ConfigError :=
| UnsupportedChain (chain : string)
| UnknownRole (chain role : string).

(** Modelled from the spec: the Chain Contract Directory lookup
    [resolveContractAddress(chainId, role)] of the external interfaces,
    which is not under src/. The directory is keyed by the supported
    chain identifiers, a lookup for an unsupported chain fails at
    validation, and the lookup fails if the role is unknown for the
    chain; otherwise it gives the address of the table. *)
Definition resolveContractAddress (chain role : string)
  : ConfigError + string :=
  if decide (chain ∈ supportedChains) then
    match contractOf chain role with
    | Some c => inr (address c)
    | None => inl (UnknownRole chain role)
    end
  else inl (UnsupportedChain chain).

(** Modelled from the spec: the processing of one operation, which is
    the body of the write functions and not under src/. The contract
    address is looked up from the directory by role name in the client's
    chain context; a configuration error is raised before any network
    call; otherwise the call goes to the submission primitive
    [submitWrite(contractAddress, ...)], whose failures are passed on
    unchanged. [chainOf] reads the chain identifier of a client and
    [roleOf] names the contract an operation writes to. *)
Definition writeVia {World E : Type}
    (chainOf : loc → string) (roleOf : WriteFn → string)
    (submitWrite :
       string → WriteFn → loc → gmap string Value → World → Settled E * World)
    (f : WriteFn) (client : loc) (p : gmap string Value) (w : World)
  : Settled (ConfigError + E) * World :=
  match resolveContractAddress (chainOf client) (roleOf f) with
  | inl e => (Rejected (inl e), w)
  | inr a =>
      let '(r, w') := submitWrite a f client p w in
      (match r with
       | Fulfilled v => Fulfilled v
       | Rejected e => Rejected (inr e)
       end, w')
  end.

(** A submission primitive that reports the contract addresses it is
    called with. *)
Definition reportsAddress (a : string) (f : WriteFn) (client : loc)
    (p : gmap string Value) (w : list string) : Settled string * list string :=
  (Fulfilled (VString "0x1d4b"), w ++ [a]).

(** Nothing submitted, no call made. *)
Definition nothingSubmitted : Ext (list string) := {| world := []; calls := [] |}.

End Resolution.

(** * Properties *)

(** ** Property lists *)

Module JsFacts.
Import Js.

Lemma get_Some_key {A : Type} (k : string) (o : list (string * A)) (v : A) :
  get k o = Some v → k ∈ keys o.
Proof.
  induction o as [|[k' v'] o IH]; simpl; [done|].
  case_decide as Hk.
  - intros _. subst. apply list_elem_of_here.
  - intros H. apply list_elem_of_further. by apply IH.
Qed.

Lemma get_None_key {A : Type} (k : string) (o : list (string * A)) :
  get k o = None ↔ k ∉ keys o.
Proof.
  induction o as [|[k' v'] o IH]; simpl.
  - split; [intros _; apply not_elem_of_nil | done].
  - case_decide as Hk.
    + subst. split; [done|]. intros []. apply list_elem_of_here.
    + rewrite IH, not_elem_of_cons. split; [by intros ?; split; [congruence|] | by intros [_ ?]].
Qed.

Lemma get_set_eq {A : Type} (k : string) (v : A) (o : list (string * A)) :
  get k (set k v o) = Some v.
Proof.
  induction o as [|[k' v'] o IH]; simpl.
  - by rewrite decide_True.
  - case_decide as Hk; simpl.
    + by rewrite decide_True.
    + by rewrite decide_False.
Qed.

End JsFacts.

(** ** The chain contract directory *)

Module ConstsSpec.
Import Consts.

Lemma complete_true : complete = true.
Proof. vm_compute. reflexivity. Qed.

Lemma keys_addresses : Js.keys addresses = supportedChains.
Proof. reflexivity. Qed.

Lemma keys_subgraphs : Js.keys subgraphs = supportedChains.
Proof. reflexivity. Qed.

Lemma roles_of_chain chain table :
  Js.get chain addresses = Some table → Js.keys table = supportedContracts.
Proof.
  unfold addresses. simpl.
  repeat (case_decide as Hk; [intros [= <-]; reflexivity|clear Hk]). done.
Qed.

Lemma supported_checked network :
  network ∈ supportedChains → is_Some (CheckedChainWithEns network).
Proof.
  intros H. unfold CheckedChainWithEns. rewrite decide_True by done.
  unfold supportedChains in H.
  repeat (apply elem_of_cons in H as [->|H]); [by eexists..|].
  by apply elem_of_nil in H.
Qed.

(** C6. The directory is a constant table, and every supported chain maps
    to a complete set of roles: for each chain of [supportedChains] and
    each role of [supportedContracts], [addresses[chain][role]] is defined
    and carries a well-formed address. *)
Theorem addresses_complete (chain role : string) :
  chain ∈ supportedChains → role ∈ supportedContracts →
  ∃ a, contractOf chain role = Some {| address := a |} ∧ isAddress a = true.
Proof.
  intros Hc Hr.
  pose proof complete_true as H. unfold complete in H.
  rewrite forallb_forall in H.
  apply list_elem_of_In, H in Hc.
  rewrite forallb_forall in Hc.
  apply list_elem_of_In, Hc in Hr.
  destruct (contractOf chain role) as [[a]|]; [|done].
  by exists a.
Qed.

Lemma addresses_complete_witness :
  "goerli" ∈ supportedChains ∧ "ensNameWrapper" ∈ supportedContracts ∧
  ∃ a, contractOf "goerli" "ensNameWrapper" = Some {| address := a |}
       ∧ isAddress a = true.
Proof.
  assert (Hc : "goerli" ∈ supportedChains) by (apply (bool_decide_unpack _); vm_compute; exact I).
  assert (Hr : "ensNameWrapper" ∈ supportedContracts)
    by (apply (bool_decide_unpack _); vm_compute; exact I).
  exact (conj Hc (conj Hr (addresses_complete "goerli" "ensNameWrapper" Hc Hr))).
Defined.

(** C10. The map from roles to addresses is not injective: on goerli the
    roles [ensReverseRegistrar] and [ensBulkRenewal] have the same
    address, and [ensBaseRegistrarImplementation] has the same address on
    homestead and on goerli. *)
Theorem addresses_not_injective :
  "ensReverseRegistrar" ≠ "ensBulkRenewal"
  ∧ contractOf "goerli" "ensReverseRegistrar"
    = Some {| address := "0x6d9F26FfBcF1c6f0bAe9F2C1f7fBe8eE6B1d8d4d" |}
  ∧ contractOf "goerli" "ensBulkRenewal"
    = Some {| address := "0x6d9F26FfBcF1c6f0bAe9F2C1f7fBe8eE6B1d8d4d" |}
  ∧ "homestead" ≠ "goerli"
  ∧ contractOf "homestead" "ensBaseRegistrarImplementation"
    = contractOf "goerli" "ensBaseRegistrarImplementation"
  ∧ is_Some (contractOf "goerli" "ensBaseRegistrarImplementation")
  ∧ ¬ Inj (=) (=) (contractOf "goerli").
Proof.
  repeat split; try done.
  intros Hinj.
  by pose proof (Hinj "ensReverseRegistrar" "ensBulkRenewal" eq_refl).
Qed.

End ConstsSpec.

(** ** The wallet decorator *)

Module WalletSpec.
Import Wallet.

Lemma operationNames_nameOf : operationNames = nameOf <$> allWriteFns.
Proof. reflexivity. Qed.

Lemma allWriteFns_all (f : WriteFn) : f ∈ allWriteFns.
Proof. destruct f; unfold allWriteFns; repeat constructor. Qed.

Lemma get_actionsOf (f : WriteFn) (client : loc) :
  Js.get (nameOf f) (actionsOf client) = Some (VArrow f client).
Proof. by destruct f. Qed.

Lemma actionsOf_inv (client : loc) (key : string) (m : Value) :
  Js.get key (actionsOf client) = Some m →
  ∃ f, key = nameOf f ∧ m = VArrow f client.
Proof.
  unfold actionsOf. simpl.
  repeat (case_decide as Hk;
    [intros [= <-]; subst key; eexists; split; [|reflexivity]; reflexivity
    |clear Hk]).
  done.
Qed.

Lemma ensWalletActions_alloc (client : loc) (h : gmap loc Obj) o h' :
  ensWalletActions client h = (o, h') →
  h !! o = None ∧ h' !! o = Some (actionsOf client)
  ∧ ∀ l, l ≠ o → h' !! l = h !! l.
Proof.
  intros [= <- <-]. split; [|split].
  - apply not_elem_of_dom, is_fresh.
  - apply lookup_insert_eq.
  - intros l Hl. by apply lookup_insert_ne.
Qed.

Lemma ensWalletActions_eq (client : loc) (h : gmap loc Obj) :
  ensWalletActions client h
  = ((ensWalletActions client h).1, (ensWalletActions client h).2).
Proof. reflexivity. Qed.

(** C1, as the code has it. For every base client, the object returned by
    [ensWalletActions] has exactly the seventeen keys of the per-operation
    contract, each once and each bound to a function: seventeen
    operations, not sixteen. *)
Theorem ensWalletActions_keys (client : loc) (h : gmap loc Obj) :
  ∃ obj, (ensWalletActions client h).2 !! (ensWalletActions client h).1
         = Some obj
    ∧ Js.keys obj = operationNames
    ∧ NoDup (Js.keys obj)
    ∧ length (Js.keys obj) = 17
    ∧ (∀ key, key ∈ operationNames ↔ is_Some (Js.get key obj))
    ∧ ∀ key m, Js.get key obj = Some m → ∃ f, m = VArrow f client.
Proof.
  destruct (ensWalletActions_alloc client h _ _ (ensWalletActions_eq client h))
    as (_ & Hobj & _).
  exists (actionsOf client). split; [done|].
  assert (Hkeys : Js.keys (actionsOf client) = operationNames) by reflexivity.
  split; [done|]. rewrite Hkeys.
  split; [|split; [reflexivity|split]].
  - apply (bool_decide_unpack _). vm_compute. exact I.
  - intros key. rewrite <- Hkeys. split.
    + intros Hin. destruct (Js.get key (actionsOf client)) eqn:E; [by eexists|].
      by apply JsFacts.get_None_key in E.
    + intros [m Hm]. by eapply JsFacts.get_Some_key.
  - intros key m Hm. apply actionsOf_inv in Hm as (f & _ & ->). by exists f.
Qed.

(** C1, as the claim counts. For the example client, the returned object
    does not have sixteen keys. *)
Lemma ensWalletActions_keys_not_16 :
  ∃ obj, (ensWalletActions exampleRef exampleStore).2
           !! (ensWalletActions exampleRef exampleStore).1 = Some obj
    ∧ Js.keys obj = operationNames
    ∧ length (Js.keys obj) ≠ 16.
Proof.
  exists (actionsOf exampleRef). split; [|split].
  - apply (ensWalletActions_alloc exampleRef exampleStore _ _ eq_refl).
  - reflexivity.
  - simpl. discriminate.
Qed.

Section Decorated.

Context {World Error : Type}.
Context (write :
  WriteFn → loc → gmap string Value → World → Settled Error * World).

(** What a method of the extended object does: one recorded call of the
    write function of the same name, on the captured client and on the
    parameter object as given. *)
Lemma invoke_actions (h : gmap loc Obj) (client o : loc) h'
    (f : WriteFn) (p : gmap string Value) (s : Ext World) :
  ensWalletActions client h = (o, h') →
  invoke write h' o (nameOf f) p s = Some (callWrite write f client p s).
Proof.
  intros (_ & Hobj & _)%ensWalletActions_alloc.
  unfold invoke. rewrite Hobj. cbv [mbind option_bind].
  by rewrite get_actionsOf.
Qed.

Lemma callWrite_calls (f : WriteFn) (client : loc) (p : gmap string Value)
    (s : Ext World) :
  calls (callWrite write f client p s).2
  = calls s ++ [ {| callee := f; clientArg := client; parametersArg := p |} ].
Proof. unfold callWrite. by destruct (write f client p (world s)). Qed.

Lemma callWrite_result (f : WriteFn) (client : loc) (p : gmap string Value)
    (s : Ext World) :
  ((callWrite write f client p s).1, world (callWrite write f client p s).2)
  = write f client p (world s).
Proof. unfold callWrite. by destruct (write f client p (world s)). Qed.

Lemma countCalls_app (g : WriteFn) (l : list Call) (c : Call) :
  countCalls g (l ++ [c])
  = (countCalls g l + if decide (callee c = g) then 1 else 0)%nat.
Proof.
  unfold countCalls. rewrite filter_app, length_app. f_equal.
  rewrite filter_cons, filter_nil. by case_decide.
Qed.

(** C2. [ensWalletActions] allocates a new object and leaves the store it
    found as it was: extending one base client twice gives two distinct
    objects, neither of them the base; the base is unchanged; both objects
    answer every operation; and an assignment to a property of one of
    them is seen neither through the other nor in the base. *)
Theorem extension_is_fresh (h : gmap loc Obj) (client o1 o2 : loc) h1 h2 :
  is_Some (h !! client) →
  ensWalletActions client h = (o1, h1) →
  ensWalletActions client h1 = (o2, h2) →
  (h !! o1 = None ∧ h1 !! o2 = None ∧ o1 ≠ client ∧ o2 ≠ client ∧ o1 ≠ o2)
  ∧ (∀ l, is_Some (h !! l) → h2 !! l = h !! l)
  ∧ h2 !! client = h !! client
  ∧ (∀ f p s,
       invoke write h2 o1 (nameOf f) p s = Some (callWrite write f client p s)
       ∧ invoke write h2 o2 (nameOf f) p s
         = Some (callWrite write f client p s))
  ∧ ∀ k v,
      (setProp o1 k v h2 !! o1 ≫= Js.get k = Some v)
      ∧ setProp o1 k v h2 !! o2 = h2 !! o2
      ∧ setProp o1 k v h2 !! client = h !! client
      ∧ setProp o2 k v h2 !! o1 = h2 !! o1
      ∧ setProp o2 k v h2 !! client = h !! client
      ∧ ∀ key p s, invoke write (setProp o1 k v h2) o2 key p s
                   = invoke write h2 o2 key p s.
Proof.
  intros [c Hc] H1 H2.
  pose proof H1 as (Hn1 & Ho1 & Hf1)%ensWalletActions_alloc.
  pose proof H2 as (Hn2 & Ho2 & Hf2)%ensWalletActions_alloc.
  assert (o1 ≠ client) as Hc1 by congruence.
  assert (o2 ≠ o1) as H21 by congruence.
  assert (o2 ≠ client) as Hc2.
  { intros ->. rewrite Hf1, Hc in Hn2; done. }
  assert (Hframe : ∀ l, is_Some (h !! l) → h2 !! l = h !! l).
  { intros l [x Hl]. rewrite Hf2, Hf1; [done|congruence|].
    intros ->. rewrite Hf1, Hl in Hn2; [done|congruence]. }
  assert (Hbase : h2 !! client = h !! client) by (apply Hframe; by eexists).
  assert (Ho1' : h2 !! o1 = Some (actionsOf client)).
  { by rewrite Hf2. }
  split; [done|]. split; [done|]. split; [done|]. split.
  - intros f p s. split; [|by eapply invoke_actions].
    unfold invoke. rewrite Ho1'. cbv [mbind option_bind].
    by rewrite get_actionsOf.
  - intros k v. unfold setProp.
    split; [|split; [|split; [|split; [|split]]]].
    + rewrite lookup_alter_eq, Ho1'.
      cbv [fmap option_fmap option_map mbind option_bind].
      apply JsFacts.get_set_eq.
    + by rewrite lookup_alter_ne.
    + by rewrite lookup_alter_ne.
    + by rewrite lookup_alter_ne.
    + by rewrite lookup_alter_ne.
    + intros key p s. unfold invoke. by rewrite lookup_alter_ne.
Qed.

(** C3. Whatever error [e] the write function of an operation rejects
    with, the operation of the extended object rejects with [e] itself,
    and leaves the collaborators in the state the write function left. *)
Theorem rejection_propagates (h : gmap loc Obj) (client o : loc) h'
    (f : WriteFn) (p : gmap string Value) (s : Ext World)
    (e : Error) (w : World) :
  ensWalletActions client h = (o, h') →
  write f client p (world s) = (Rejected e, w) →
  ∃ s', invoke write h' o (nameOf f) p s = Some (Rejected e, s')
        ∧ world s' = w.
Proof.
  intros Hext Hw. rewrite (invoke_actions _ _ _ _ _ _ _ Hext).
  unfold callWrite. rewrite Hw. by eexists.
Qed.

(** C4. Every field of the parameter object, the transaction overrides
    among them, reaches the write function as given: if the object has
    [v] under [k], so has the object the write function receives. *)
Theorem overrides_forwarded (h : gmap loc Obj) (client o : loc) h'
    (f : WriteFn) (p : gmap string Value) (s : Ext World)
    (k : string) (v : Value) :
  ensWalletActions client h = (o, h') →
  p !! k = Some v →
  ∃ r s' c, invoke write h' o (nameOf f) p s = Some (r, s')
    ∧ calls s' = calls s ++ [c]
    ∧ callee c = f
    ∧ parametersArg c = p
    ∧ parametersArg c !! k = Some v
    ∧ (r, world s') = write f client (parametersArg c) (world s).
Proof.
  intros Hext Hk. rewrite (invoke_actions _ _ _ _ _ _ _ Hext).
  destruct (callWrite write f client p s) as [r s'] eqn:E.
  exists r, s', {| callee := f; clientArg := client; parametersArg := p |}.
  pose proof (callWrite_calls f client p s) as Hcalls.
  pose proof (callWrite_result f client p s) as Hres.
  rewrite E in Hcalls, Hres. by simpl in *.
Qed.

(** C5. One invocation of an operation is one call of its write function
    and of no other; its outcome and its effect on the collaborators are
    those of that call, so that a call that fails is a rejected promise. *)
Theorem one_call_per_invocation (h : gmap loc Obj) (client o : loc) h'
    (f : WriteFn) (p : gmap string Value) (s : Ext World) :
  ensWalletActions client h = (o, h') →
  ∃ r s', invoke write h' o (nameOf f) p s = Some (r, s')
    ∧ calls s' = calls s
        ++ [ {| callee := f; clientArg := client; parametersArg := p |} ]
    ∧ countCalls f (calls s') = S (countCalls f (calls s))
    ∧ (∀ g, g ≠ f → countCalls g (calls s') = countCalls g (calls s))
    ∧ (r, world s') = write f client p (world s)
    ∧ (∀ e w, write f client p (world s) = (Rejected e, w) → r = Rejected e).
Proof.
  intros Hext. rewrite (invoke_actions _ _ _ _ _ _ _ Hext).
  destruct (callWrite write f client p s) as [r s'] eqn:E.
  exists r, s'.
  pose proof (callWrite_calls f client p s) as Hcalls.
  pose proof (callWrite_result f client p s) as Hres.
  rewrite E in Hcalls, Hres. simpl in *.
  split; [done|]. split; [done|]. rewrite Hcalls.
  split; [|split; [|split; [done|]]].
  - rewrite countCalls_app. simpl. rewrite decide_True by done. lia.
  - intros g Hg. rewrite countCalls_app. simpl.
    rewrite decide_False by done. lia.
  - intros e w Hw. rewrite Hw in Hres. congruence.
Qed.

(** C8, as the code has it. The decorator hands the parameter object to
    the write function as it received it: it takes no field out of it and
    fills none in, so a field the caller omitted is still absent from the
    object the write function is applied to. Defaults are the write
    function's business. *)
Theorem parameters_passed_as_given (h : gmap loc Obj) (client o : loc) h'
    (f : WriteFn) (p : gmap string Value) (s : Ext World) :
  ensWalletActions client h = (o, h') →
  ∃ r s' c, invoke write h' o (nameOf f) p s = Some (r, s')
    ∧ last (calls s') = Some c
    ∧ callee c = f
    ∧ parametersArg c = p
    ∧ (∀ flag, p !! flag = None → parametersArg c !! flag = None)
    ∧ (r, world s') = write f client p (world s).
Proof.
  intros Hext. rewrite (invoke_actions _ _ _ _ _ _ _ Hext).
  destruct (callWrite write f client p s) as [r s'] eqn:E.
  exists r, s', {| callee := f; clientArg := client; parametersArg := p |}.
  pose proof (callWrite_calls f client p s) as Hcalls.
  pose proof (callWrite_result f client p s) as Hres.
  rewrite E in Hcalls, Hres. simpl in *.
  split; [done|]. split; [by rewrite Hcalls, last_snoc|]. done.
Qed.

(** C9. Every property of an extended object is a closure over the client
    given at extension, and every invocation, whatever its parameter
    object and whatever happened before, is the write function applied to
    that client: its outcome and its effect are those of that
    application. *)
Theorem client_fixed_at_extension (h : gmap loc Obj) (client o : loc) h' :
  ensWalletActions client h = (o, h') →
  (∀ key m, h' !! o ≫= Js.get key = Some m →
     ∃ f, key = nameOf f ∧ m = VArrow f client)
  ∧ ∀ f p s, ∃ r s' c,
      invoke write h' o (nameOf f) p s = Some (r, s')
      ∧ calls s' = calls s ++ [c]
      ∧ callee c = f
      ∧ clientArg c = client
      ∧ (r, world s') = write f client p (world s).
Proof.
  intros Hext. split.
  - pose proof Hext as (_ & Hobj & _)%ensWalletActions_alloc.
    intros key m. rewrite Hobj. cbv [mbind option_bind]. apply actionsOf_inv.
  - intros f p s. rewrite (invoke_actions _ _ _ _ _ _ _ Hext).
    destruct (callWrite write f client p s) as [r s'] eqn:E.
    exists r, s', {| callee := f; clientArg := client; parametersArg := p |}.
    pose proof (callWrite_calls f client p s) as Hcalls.
    pose proof (callWrite_result f client p s) as Hres.
    rewrite E in Hcalls, Hres. by simpl in *.
Qed.

End Decorated.

Lemma example_extension :
  ensWalletActions exampleRef exampleStore = (2%positive, exampleStore1).
Proof. reflexivity. Defined.

Lemma example_extension_again :
  ensWalletActions exampleRef exampleStore1 = (3%positive, exampleStore2).
Proof. reflexivity. Defined.

Lemma example_client_stored : is_Some (exampleStore !! exampleRef).
Proof. exists exampleClient. reflexivity. Defined.

Lemma extension_is_fresh_witness :
  is_Some (exampleStore !! exampleRef)
  ∧ ensWalletActions exampleRef exampleStore = (2%positive, exampleStore1)
  ∧ ensWalletActions exampleRef exampleStore1 = (3%positive, exampleStore2)
  ∧ (exampleStore !! 2%positive = None ∧ exampleStore1 !! 3%positive = None
     ∧ 2%positive ≠ exampleRef ∧ 3%positive ≠ exampleRef
     ∧ 2%positive ≠ 3%positive)
  ∧ (∀ l, is_Some (exampleStore !! l) → exampleStore2 !! l = exampleStore !! l)
  ∧ exampleStore2 !! exampleRef = exampleStore !! exampleRef
  ∧ (∀ f p s,
       invoke fulfils exampleStore2 2%positive (nameOf f) p s
       = Some (callWrite fulfils f exampleRef p s)
       ∧ invoke fulfils exampleStore2 3%positive (nameOf f) p s
         = Some (callWrite fulfils f exampleRef p s))
  ∧ ∀ k v,
      (setProp 2%positive k v exampleStore2 !! 2%positive ≫= Js.get k = Some v)
      ∧ setProp 2%positive k v exampleStore2 !! 3%positive
        = exampleStore2 !! 3%positive
      ∧ setProp 2%positive k v exampleStore2 !! exampleRef
        = exampleStore !! exampleRef
      ∧ setProp 3%positive k v exampleStore2 !! 2%positive
        = exampleStore2 !! 2%positive
      ∧ setProp 3%positive k v exampleStore2 !! exampleRef
        = exampleStore !! exampleRef
      ∧ ∀ key p s,
          invoke fulfils (setProp 2%positive k v exampleStore2) 3%positive key p s
          = invoke fulfils exampleStore2 3%positive key p s.
Proof.
  exact (conj example_client_stored
          (conj example_extension
            (conj example_extension_again
              (extension_is_fresh fulfils exampleStore exampleRef
                 2%positive 3%positive exampleStore1 exampleStore2
                 example_client_stored example_extension
                 example_extension_again)))).
Defined.

Lemma rejection_propagates_witness :
  ensWalletActions exampleRef exampleStore = (2%positive, exampleStore1)
  ∧ reverts registerName exampleRef exampleRegister (world noCalls)
    = (Rejected "reverted", tt)
  ∧ ∃ s', invoke reverts exampleStore1 2%positive (nameOf registerName)
            exampleRegister noCalls = Some (Rejected "reverted", s')
          ∧ world s' = tt.
Proof.
  exact (conj example_extension
          (conj eq_refl
            (rejection_propagates reverts exampleStore exampleRef 2%positive
               exampleStore1 registerName exampleRegister noCalls
               "reverted" tt example_extension eq_refl))).
Defined.

Lemma overrides_forwarded_witness :
  ensWalletActions exampleRef exampleStore = (2%positive, exampleStore1)
  ∧ exampleRegister !! "value" = Some (VBigInt 100)
  ∧ ∃ r s' c,
      invoke fulfils exampleStore1 2%positive (nameOf registerName)
        exampleRegister noCalls = Some (r, s')
      ∧ calls s' = calls noCalls ++ [c]
      ∧ callee c = registerName
      ∧ parametersArg c = exampleRegister
      ∧ parametersArg c !! "value" = Some (VBigInt 100)
      ∧ (r, world s')
        = fulfils registerName exampleRef (parametersArg c) (world noCalls).
Proof.
  exact (conj example_extension
          (conj eq_refl
            (overrides_forwarded fulfils exampleStore exampleRef 2%positive
               exampleStore1 registerName exampleRegister noCalls
               "value" (VBigInt 100) example_extension eq_refl))).
Defined.

Lemma one_call_per_invocation_witness :
  ensWalletActions exampleRef exampleStore = (2%positive, exampleStore1)
  ∧ ∃ r s',
      invoke reverts exampleStore1 2%positive (nameOf wrapName)
        exampleRegister noCalls = Some (r, s')
      ∧ calls s' = calls noCalls
          ++ [ {| callee := wrapName; clientArg := exampleRef;
                  parametersArg := exampleRegister |} ]
      ∧ countCalls wrapName (calls s') = S (countCalls wrapName (calls noCalls))
      ∧ (∀ g, g ≠ wrapName →
           countCalls g (calls s') = countCalls g (calls noCalls))
      ∧ (r, world s')
        = reverts wrapName exampleRef exampleRegister (world noCalls)
      ∧ (∀ e w,
           reverts wrapName exampleRef exampleRegister (world noCalls)
           = (Rejected e, w) → r = Rejected e).
Proof.
  exact (conj example_extension
          (one_call_per_invocation reverts exampleStore exampleRef 2%positive
             exampleStore1 wrapName exampleRegister noCalls
             example_extension)).
Defined.

Lemma parameters_passed_as_given_witness :
  ensWalletActions exampleRef exampleStore = (2%positive, exampleStore1)
  ∧ ∃ r s' c,
      invoke reports exampleStore1 2%positive (nameOf deleteSubname)
        exampleDelete noReports = Some (r, s')
      ∧ last (calls s') = Some c
      ∧ callee c = deleteSubname
      ∧ parametersArg c = exampleDelete
      ∧ (∀ flag, exampleDelete !! flag = None → parametersArg c !! flag = None)
      ∧ (r, world s')
        = reports deleteSubname exampleRef exampleDelete (world noReports).
Proof.
  exact (conj example_extension
          (parameters_passed_as_given reports exampleStore exampleRef
             2%positive exampleStore1 deleteSubname exampleDelete noReports
             example_extension)).
Defined.

Lemma client_fixed_at_extension_witness :
  ensWalletActions exampleRef exampleStore = (2%positive, exampleStore1)
  ∧ (∀ key m, exampleStore1 !! 2%positive ≫= Js.get key = Some m →
       ∃ f, key = nameOf f ∧ m = VArrow f exampleRef)
  ∧ ∀ f p (s : Ext (list Call)), ∃ r s' c,
      invoke reports exampleStore1 2%positive (nameOf f) p s = Some (r, s')
      ∧ calls s' = calls s ++ [c]
      ∧ callee c = f
      ∧ clientArg c = exampleRef
      ∧ (r, world s') = reports f exampleRef p (world s).
Proof.
  exact (conj example_extension
          (client_fixed_at_extension reports exampleStore exampleRef
             2%positive exampleStore1 example_extension)).
Defined.

(** C8, as the claim reads. In the [deleteSubname] example of the doc
    comment the caller omits [asOwner]. Collaborators that report what
    they are applied to report that very object, without [asOwner]: the
    decorator has derived no default, and there is no object with
    [asOwner] that the write function could have been applied to. *)
Lemma deleteSubname_asOwner_not_defaulted :
  exampleDelete !! "asOwner" = None
  ∧ invoke reports exampleStore1 2%positive "deleteSubname" exampleDelete
      noReports
    = Some (Fulfilled (VString "0x1d4b"),
            {| world := [ {| callee := deleteSubname; clientArg := exampleRef;
                             parametersArg := exampleDelete |} ];
               calls := [ {| callee := deleteSubname; clientArg := exampleRef;
                             parametersArg := exampleDelete |} ] |})
  ∧ ¬ defaultsApplied reports deleteSubname "asOwner".
Proof.
  split; [reflexivity|]. split; [reflexivity|].
  intros Hclaim.
  destruct (Hclaim exampleStore exampleRef exampleDelete noReports eq_refl)
    as (p' & r & s' & [x Hx] & Hinv & Hres).
  change (ensWalletActions exampleRef exampleStore).2 with exampleStore1 in Hinv.
  change (ensWalletActions exampleRef exampleStore).1 with 2%positive in Hinv.
  rewrite (invoke_actions reports _ _ _ _ deleteSubname exampleDelete
             noReports example_extension) in Hinv.
  injection Hinv as <- <-.
  unfold reports in Hres. simpl in Hres.
  injection Hres as Hp. rewrite <- Hp in Hx. discriminate Hx.
Qed.

End WalletSpec.

(** ** More on the chain contract directory *)

Module DirectorySpec.
Import Consts.

Lemma contractOf_dom (chain role : string) :
  is_Some (contractOf chain role) →
  chain ∈ supportedChains ∧ role ∈ supportedContracts.
Proof.
  intros [c Hc]. unfold contractOf in Hc.
  destruct (Js.get chain addresses) as [table|] eqn:Ht; [|done].
  cbv [mbind option_bind] in Hc. split.
  - rewrite <- ConstsSpec.keys_addresses. by eapply JsFacts.get_Some_key.
  - rewrite <- (ConstsSpec.roles_of_chain chain table Ht).
    by eapply JsFacts.get_Some_key.
Qed.

Lemma contractOf_defined (chain role : string) :
  chain ∈ supportedChains → role ∈ supportedContracts →
  ∃ a, contractOf chain role = Some {| address := a |} ∧ isAddress a = true.
Proof.
  intros Hc Hr.
  pose proof ConstsSpec.complete_true as H. unfold complete in H.
  rewrite forallb_forall in H.
  apply list_elem_of_In, H in Hc.
  rewrite forallb_forall in Hc.
  apply list_elem_of_In, Hc in Hr.
  destruct (contractOf chain role) as [[a]|]; [by exists a|done].
Qed.

Lemma checked_inv (network : string) (m : EnsMembers) :
  CheckedChainWithEns network = Some m →
  network ∈ supportedChains
  ∧ Js.get network addresses = Some (contracts m)
  ∧ Js.get network subgraphs = Some (chainSubgraphs m).
Proof.
  unfold CheckedChainWithEns. case_decide as Hin; [|done].
  destruct (Js.get network addresses) as [c|]; [|done].
  destruct (Js.get network subgraphs) as [g|]; [|done].
  cbv [mbind option_bind]. by intros [= <-].
Qed.

Lemma members_of_subgraphs (chain : string) table :
  Js.get chain subgraphs = Some table → Js.keys table = Types.Subgraphs.
Proof.
  unfold subgraphs. simpl.
  repeat (case_decide as Hk; [intros [= <-]; reflexivity|clear Hk]). done.
Qed.

Ltac supported H :=
  unfold supportedChains, supportedContracts, Types.BaseChainContracts in H;
  repeat (apply elem_of_cons in H as [->|H]);
  [..|by apply elem_of_nil in H].

(** X6. The table [subgraphs] meets the constraint that the source leaves
    commented out, [Record<SupportedChain, Subgraphs>]: each supported
    chain has an entry whose only member is [ens], with a URL of the ENS
    subgraphs; no other chain has an entry, and no two chains share a
    URL. *)
Theorem subgraphs_complete (chain : string) :
  chain ∈ supportedChains →
  ∃ table u,
    Js.get chain subgraphs = Some table
    ∧ Js.keys table = Types.Subgraphs
    ∧ Js.get "ens" table = Some {| url := u |}
    ∧ String.prefix "https://api.thegraph.com/subgraphs/name/ensdomains/ens" u
      = true
    ∧ (∀ chain', is_Some (Js.get chain' subgraphs) → chain' ∈ supportedChains)
    ∧ ∀ chain' table',
        Js.get chain' subgraphs = Some table' →
        Js.get "ens" table' = Some {| url := u |} → chain' = chain.
Proof.
  intros Hc.
  assert (Hdom : ∀ chain', is_Some (Js.get chain' subgraphs) →
                           chain' ∈ supportedChains).
  { intros chain' [t Ht]. rewrite <- ConstsSpec.keys_subgraphs.
    by eapply JsFacts.get_Some_key. }
  supported Hc; eexists _, _;
    (split; [reflexivity|]); (split; [reflexivity|]);
    (split; [reflexivity|]); (split; [reflexivity|]); (split; [exact Hdom|]);
    intros chain' table' Ht Hu;
    assert (Hc' : chain' ∈ supportedChains) by (apply Hdom; by eexists);
    supported Hc'; try reflexivity;
    vm_compute in Ht; injection Ht as <-; vm_compute in Hu; discriminate Hu.
Qed.

Lemma subgraphs_complete_witness :
  "goerli" ∈ supportedChains
  ∧ ∃ table u,
      Js.get "goerli" subgraphs = Some table
      ∧ Js.keys table = Types.Subgraphs
      ∧ Js.get "ens" table = Some {| url := u |}
      ∧ String.prefix "https://api.thegraph.com/subgraphs/name/ensdomains/ens" u
        = true
      ∧ (∀ chain', is_Some (Js.get chain' subgraphs) → chain' ∈ supportedChains)
      ∧ ∀ chain' table',
          Js.get chain' subgraphs = Some table' →
          Js.get "ens" table' = Some {| url := u |} → chain' = "goerli".
Proof.
  assert (Hc : "goerli" ∈ supportedChains)
    by (apply (bool_decide_unpack _); vm_compute; exact I).
  exact (conj Hc (subgraphs_complete "goerli" Hc)).
Defined.

(** X7. Whenever [CheckedChainWithEns] is other than [never], the members
    it adds are the chain's rows of [addresses] and [subgraphs]: the
    contracts are exactly the eight of [supportedContracts], in that
    order, each with a well-formed address, and the subgraphs have
    [ens]. *)
Theorem checked_chain_members (network : string) (m : EnsMembers) :
  CheckedChainWithEns network = Some m →
  network ∈ supportedChains
  ∧ Js.get network addresses = Some (contracts m)
  ∧ Js.get network subgraphs = Some (chainSubgraphs m)
  ∧ Js.keys (contracts m) = supportedContracts
  ∧ (∀ role, role ∈ supportedContracts →
       ∃ a, Js.get role (contracts m) = Some {| address := a |}
            ∧ isAddress a = true)
  ∧ Js.keys (chainSubgraphs m) = Types.Subgraphs.
Proof.
  intros (Hin & Ha & Hs)%checked_inv.
  split; [done|]. split; [done|]. split; [done|].
  split; [by eapply ConstsSpec.roles_of_chain|]. split.
  - intros role Hr.
    destruct (contractOf_defined network role Hin Hr) as (a & Hc & Hok).
    exists a. split; [|done]. unfold contractOf in Hc. by rewrite Ha in Hc.
  - by eapply members_of_subgraphs.
Qed.

Lemma checked_chain_members_witness :
  ∃ m, CheckedChainWithEns "homestead" = Some m
  ∧ "homestead" ∈ supportedChains
  ∧ Js.get "homestead" addresses = Some (contracts m)
  ∧ Js.get "homestead" subgraphs = Some (chainSubgraphs m)
  ∧ Js.keys (contracts m) = supportedContracts
  ∧ (∀ role, role ∈ supportedContracts →
       ∃ a, Js.get role (contracts m) = Some {| address := a |}
            ∧ isAddress a = true)
  ∧ Js.keys (chainSubgraphs m) = Types.Subgraphs.
Proof.
  eexists.
  refine ((λ H, conj H (checked_chain_members "homestead" _ H)) _).
  reflexivity.
Defined.

(** X9. The members of [EnsChainContracts] are the roles of
    [supportedContracts]; those of [BaseChainContracts] are not among
    them, so the directory has no address for [multicall3],
    [ensUniversalResolver] or [ensRegistry] on any chain, and
    [CheckedChainWithEns] adds none. *)
Theorem base_contracts_not_in_directory (chain role : string) :
  role ∈ Types.BaseChainContracts →
  Types.EnsChainContracts = supportedContracts
  ∧ (role ∉ supportedContracts)
  ∧ contractOf chain role = None
  ∧ ∀ m, CheckedChainWithEns chain = Some m → Js.get role (contracts m) = None.
Proof.
  intros Hr.
  assert (Hn : role ∉ supportedContracts).
  { supported Hr; apply (bool_decide_unpack _); vm_compute; exact I. }
  split; [reflexivity|]. split; [done|]. split.
  - destruct (contractOf chain role) eqn:E; [|done].
    destruct (contractOf_dom chain role) as [_ ?]; [by eexists|done].
  - intros m (_ & Ha & _)%checked_inv.
    apply JsFacts.get_None_key.
    by rewrite (ConstsSpec.roles_of_chain chain _ Ha).
Qed.

Lemma base_contracts_not_in_directory_witness :
  "ensRegistry" ∈ Types.BaseChainContracts
  ∧ Types.EnsChainContracts = supportedContracts
  ∧ ("ensRegistry" ∉ supportedContracts)
  ∧ contractOf "homestead" "ensRegistry" = None
  ∧ ∀ m, CheckedChainWithEns "homestead" = Some m →
         Js.get "ensRegistry" (contracts m) = None.
Proof.
  assert (Hr : "ensRegistry" ∈ Types.BaseChainContracts)
    by (apply (bool_decide_unpack _); vm_compute; exact I).
  exact (conj Hr (base_contracts_not_in_directory "homestead" "ensRegistry" Hr)).
Defined.

(** X10. Two cells of [addresses] hold the same address in two cases
    only: [ensReverseRegistrar] and [ensBulkRenewal] on goerli, and
    [ensBaseRegistrarImplementation] on the two chains. In particular no
    two roles share an address on homestead. *)
Theorem address_collisions (c1 r1 c2 r2 : string) (a : ChainContract) :
  contractOf c1 r1 = Some a → contractOf c2 r2 = Some a →
  (c1 = c2 ∧ r1 = r2)
  ∨ (c1 = "goerli" ∧ c2 = "goerli"
     ∧ ((r1 = "ensReverseRegistrar" ∧ r2 = "ensBulkRenewal")
        ∨ (r1 = "ensBulkRenewal" ∧ r2 = "ensReverseRegistrar")))
  ∨ (r1 = "ensBaseRegistrarImplementation"
     ∧ r2 = "ensBaseRegistrarImplementation"
     ∧ ((c1 = "homestead" ∧ c2 = "goerli")
        ∨ (c1 = "goerli" ∧ c2 = "homestead"))).
Proof.
  intros H1 H2.
  destruct (contractOf_dom c1 r1) as [Hc1 Hr1]; [by eexists|].
  destruct (contractOf_dom c2 r2) as [Hc2 Hr2]; [by eexists|].
  supported Hc1; supported Hr1;
    vm_compute in H1; injection H1 as <-;
    supported Hc2; supported Hr2;
    first [ left; split; reflexivity
          | right; left; repeat split; (by left) || (by right)
          | right; right; repeat split; (by left) || (by right)
          | vm_compute in H2; discriminate H2 ].
Qed.

Lemma address_collisions_witness :
  contractOf "goerli" "ensBulkRenewal"
  = Some {| address := "0x6d9F26FfBcF1c6f0bAe9F2C1f7fBe8eE6B1d8d4d" |}
  ∧ contractOf "goerli" "ensReverseRegistrar"
    = Some {| address := "0x6d9F26FfBcF1c6f0bAe9F2C1f7fBe8eE6B1d8d4d" |}
  ∧ (("goerli" = "goerli" ∧ "ensBulkRenewal" = "ensReverseRegistrar")
     ∨ ("goerli" = "goerli" ∧ "goerli" = "goerli"
        ∧ (("ensBulkRenewal" = "ensReverseRegistrar"
            ∧ "ensReverseRegistrar" = "ensBulkRenewal")
           ∨ ("ensBulkRenewal" = "ensBulkRenewal"
              ∧ "ensReverseRegistrar" = "ensReverseRegistrar")))
     ∨ ("ensBulkRenewal" = "ensBaseRegistrarImplementation"
        ∧ "ensReverseRegistrar" = "ensBaseRegistrarImplementation"
        ∧ (("goerli" = "homestead" ∧ "goerli" = "goerli")
           ∨ ("goerli" = "goerli" ∧ "goerli" = "homestead")))).
Proof.
  exact (conj eq_refl
          (conj eq_refl
            (address_collisions "goerli" "ensBulkRenewal"
               "goerli" "ensReverseRegistrar" _ eq_refl eq_refl))).
Defined.

End DirectorySpec.

(** ** More on the wallet decorator *)

Module DecoratorSpec.
Import Wallet.

Lemma get_set_ne {A : Type} (k k' : string) (v : A) (o : list (string * A)) :
  k ≠ k' → Js.get k' (Js.set k v o) = Js.get k' o.
Proof.
  intros Hne. induction o as [|[k0 v0] o IH]; simpl.
  - by rewrite decide_False.
  - destruct (decide (k0 = k)) as [->|Hk0]; simpl.
    + by rewrite !decide_False.
    + by rewrite IH.
Qed.

Lemma keys_set_present {A : Type} (k : string) (v : A) (o : list (string * A)) :
  k ∈ Js.keys o → Js.keys (Js.set k v o) = Js.keys o.
Proof.
  unfold Js.keys. induction o as [|[k0 v0] o IH]; simpl.
  - by intros ?%elem_of_nil.
  - intros Hin. destruct (decide (k0 = k)) as [->|Hk0]; simpl; [done|].
    f_equal. apply IH. apply elem_of_cons in Hin as [?|?]; [congruence|done].
Qed.

Lemma nameOf_inj (f g : WriteFn) : nameOf f = nameOf g → f = g.
Proof. destruct f, g; simpl; intros H; (reflexivity || discriminate H). Qed.

(** X3. The object literal is a one-to-one table between its keys and the
    imported write functions: each of the seventeen functions is called
    by the operation of its own name and by no other, and no function is
    imported twice. *)
Theorem dispatch_bijective (client : loc) :
  (∀ f, Js.get (nameOf f) (actionsOf client) = Some (VArrow f client))
  ∧ (∀ key f c, Js.get key (actionsOf client) = Some (VArrow f c) →
       key = nameOf f ∧ c = client)
  ∧ (∀ k1 k2 f c1 c2,
       Js.get k1 (actionsOf client) = Some (VArrow f c1) →
       Js.get k2 (actionsOf client) = Some (VArrow f c2) → k1 = k2)
  ∧ (∀ f g, nameOf f = nameOf g → f = g)
  ∧ NoDup allWriteFns
  ∧ length allWriteFns = length (Js.keys (actionsOf client)).
Proof.
  assert (Hinv : ∀ key f c,
            Js.get key (actionsOf client) = Some (VArrow f c) →
            key = nameOf f ∧ c = client).
  { intros key f c (g & -> & [= -> ->])%WalletSpec.actionsOf_inv. done. }
  split; [intros f; apply WalletSpec.get_actionsOf|]. split; [exact Hinv|].
  split; [|split; [exact nameOf_inj|split]].
  - intros k1 k2 f c1 c2 [-> _]%Hinv [-> _]%Hinv. reflexivity.
  - apply (bool_decide_unpack _). vm_compute. exact I.
  - reflexivity.
Qed.

(** X5. The type [EnsWalletActions] and the object that
    [ensWalletActions] returns have the same members in the same order;
    every declared parameter pattern names no field twice and names the
    target first, [nameOrNames] for [renewNames] and [name] for the
    sixteen others. *)
Theorem interface_conformance (client : loc) :
  Js.keys Types.EnsWalletActions = Js.keys (actionsOf client)
  ∧ Js.keys Types.EnsWalletActions = nameOf <$> allWriteFns
  ∧ ∀ key fields,
      Js.get key Types.EnsWalletActions = Some fields →
      NoDup fields
      ∧ head fields = Some (if decide (key = "renewNames")
                            then "nameOrNames" else "name").
Proof.
  split; [reflexivity|]. split; [reflexivity|].
  intros key fields. unfold Types.EnsWalletActions. simpl.
  repeat (case_decide as Hk;
    [intros [= <-]; subst key; split;
       [apply (bool_decide_unpack _); vm_compute; exact I|reflexivity]
    |clear Hk]).
  done.
Qed.

Section Decorated.

Context {World Error : Type}.
Context (write :
  WriteFn → loc → gmap string Value → World → Settled Error * World).

(** X1. Extensions of two clients in one store do not mix: the objects
    are distinct, the later extension leaves the earlier object as it
    was, and every operation of each object is its write function applied
    to the client that object was made from, with the outcome and the
    effect of that application. *)
Theorem extensions_keep_their_client (h : gmap loc Obj)
    (c1 c2 o1 o2 : loc) h1 h2 :
  ensWalletActions c1 h = (o1, h1) →
  ensWalletActions c2 h1 = (o2, h2) →
  o1 ≠ o2
  ∧ h2 !! o1 = h1 !! o1
  ∧ ∀ f p s, ∃ r1 s1 r2 s2,
      invoke write h2 o1 (nameOf f) p s = Some (r1, s1)
      ∧ (r1, world s1) = write f c1 p (world s)
      ∧ calls s1
        = calls s ++ [ {| callee := f; clientArg := c1; parametersArg := p |} ]
      ∧ invoke write h2 o2 (nameOf f) p s = Some (r2, s2)
      ∧ (r2, world s2) = write f c2 p (world s)
      ∧ calls s2
        = calls s ++ [ {| callee := f; clientArg := c2; parametersArg := p |} ].
Proof.
  intros H1 H2.
  pose proof H1 as (Hn1 & Ho1 & Hf1)%WalletSpec.ensWalletActions_alloc.
  pose proof H2 as (Hn2 & Ho2 & Hf2)%WalletSpec.ensWalletActions_alloc.
  assert (o1 ≠ o2) as Hne by congruence.
  split; [done|]. split; [by apply Hf2|].
  intros f p s.
  assert (Hi1 : invoke write h2 o1 (nameOf f) p s
                = Some (callWrite write f c1 p s)).
  { unfold invoke. rewrite Hf2, Ho1 by done. cbv [mbind option_bind].
    by rewrite WalletSpec.get_actionsOf. }
  rewrite Hi1, (WalletSpec.invoke_actions write _ _ _ _ f p s H2).
  pose proof (WalletSpec.callWrite_calls write f c1 p s) as Hc1.
  pose proof (WalletSpec.callWrite_result write f c1 p s) as Hr1.
  pose proof (WalletSpec.callWrite_calls write f c2 p s) as Hc2.
  pose proof (WalletSpec.callWrite_result write f c2 p s) as Hr2.
  destruct (callWrite write f c1 p s) as [r1 s1].
  destruct (callWrite write f c2 p s) as [r2 s2].
  by exists r1, s1, r2, s2.
Qed.

(** X2. Two operations invoked one after the other are two calls, logged
    in that order; the second write function starts from the state the
    first one left, and is called whether the first promise was fulfilled
    or rejected. *)
Theorem invocations_in_sequence (h : gmap loc Obj) (client o : loc) h'
    (f1 f2 : WriteFn) (p1 p2 : gmap string Value) (s : Ext World) :
  ensWalletActions client h = (o, h') →
  ∃ r1 s1 r2 s2,
    invoke write h' o (nameOf f1) p1 s = Some (r1, s1)
    ∧ invoke write h' o (nameOf f2) p2 s1 = Some (r2, s2)
    ∧ calls s2 = calls s
        ++ [ {| callee := f1; clientArg := client; parametersArg := p1 |};
             {| callee := f2; clientArg := client; parametersArg := p2 |} ]
    ∧ (r1, world s1) = write f1 client p1 (world s)
    ∧ (r2, world s2) = write f2 client p2 (world s1).
Proof.
  intros Hext.
  destruct (callWrite write f1 client p1 s) as [r1 s1] eqn:E1.
  destruct (callWrite write f2 client p2 s1) as [r2 s2] eqn:E2.
  exists r1, s1, r2, s2.
  rewrite !(WalletSpec.invoke_actions write _ _ _ _ _ _ _ Hext).
  pose proof (WalletSpec.callWrite_calls write f1 client p1 s) as Hc1.
  pose proof (WalletSpec.callWrite_result write f1 client p1 s) as Hr1.
  pose proof (WalletSpec.callWrite_calls write f2 client p2 s1) as Hc2.
  pose proof (WalletSpec.callWrite_result write f2 client p2 s1) as Hr2.
  rewrite E1 in Hc1, Hr1. rewrite E2 in Hc2, Hr2. simpl in *.
  split; [by rewrite E1|]. split; [by rewrite E2|].
  split; [|done]. by rewrite Hc2, Hc1, <- app_assoc.
Qed.

(** X4. The returned object is an ordinary, unfrozen object. Assigning a
    value to one of its operations replaces that operation alone: the
    object keeps its seventeen keys in order, the sixteen other
    operations call their write functions on the client as before, the
    replaced one does what the new value does, and no other object of the
    store changes. *)
Theorem replaced_operation (h : gmap loc Obj) (client o : loc) h'
    (f : WriteFn) (m : Value) :
  ensWalletActions client h = (o, h') →
  (setProp o (nameOf f) m h' !! o ≫= Js.get (nameOf f) = Some m)
  ∧ Js.keys <$> setProp o (nameOf f) m h' !! o = Some operationNames
  ∧ (∀ g p s, g ≠ f →
       invoke write (setProp o (nameOf f) m h') o (nameOf g) p s
       = Some (callWrite write g client p s))
  ∧ (∀ p s, invoke write (setProp o (nameOf f) m h') o (nameOf f) p s
            = applyValue write m p s)
  ∧ ∀ l, l ≠ o → setProp o (nameOf f) m h' !! l = h' !! l.
Proof.
  intros (_ & Hobj & _)%WalletSpec.ensWalletActions_alloc.
  assert (Hset : setProp o (nameOf f) m h' !! o
                 = Some (Js.set (nameOf f) m (actionsOf client))).
  { unfold setProp. by rewrite lookup_alter_eq, Hobj. }
  split; [|split; [|split; [|split]]].
  - rewrite Hset. cbv [mbind option_bind]. apply JsFacts.get_set_eq.
  - rewrite Hset. cbv [fmap option_fmap option_map]. f_equal.
    rewrite keys_set_present; [reflexivity|].
    eapply JsFacts.get_Some_key, WalletSpec.get_actionsOf.
  - intros g p s Hg. unfold invoke. rewrite Hset. cbv [mbind option_bind].
    rewrite get_set_ne, WalletSpec.get_actionsOf; [done|].
    intros Heq%nameOf_inj. congruence.
  - intros p s. unfold invoke. rewrite Hset. cbv [mbind option_bind].
    by rewrite JsFacts.get_set_eq.
  - intros l Hl. unfold setProp. by rewrite lookup_alter_ne.
Qed.

End Decorated.

Lemma two_extensions_first :
  ensWalletActions exampleRef Examples.twoClients
  = (3%positive, Examples.twoClients1).
Proof. reflexivity. Defined.

Lemma two_extensions_second :
  ensWalletActions Examples.otherRef Examples.twoClients1
  = (4%positive, Examples.twoClients2).
Proof. reflexivity. Defined.

Lemma extensions_keep_their_client_witness :
  ensWalletActions exampleRef Examples.twoClients
  = (3%positive, Examples.twoClients1)
  ∧ ensWalletActions Examples.otherRef Examples.twoClients1
    = (4%positive, Examples.twoClients2)
  ∧ 3%positive ≠ 4%positive
  ∧ Examples.twoClients2 !! 3%positive = Examples.twoClients1 !! 3%positive
  ∧ ∀ f p (s : Ext (list Call)), ∃ r1 s1 r2 s2,
      invoke reports Examples.twoClients2 3%positive (nameOf f) p s
      = Some (r1, s1)
      ∧ (r1, world s1) = reports f exampleRef p (world s)
      ∧ calls s1
        = calls s ++ [ {| callee := f; clientArg := exampleRef;
                          parametersArg := p |} ]
      ∧ invoke reports Examples.twoClients2 4%positive (nameOf f) p s
        = Some (r2, s2)
      ∧ (r2, world s2) = reports f Examples.otherRef p (world s)
      ∧ calls s2
        = calls s ++ [ {| callee := f; clientArg := Examples.otherRef;
                          parametersArg := p |} ].
Proof.
  exact (conj two_extensions_first
          (conj two_extensions_second
            (extensions_keep_their_client reports Examples.twoClients
               exampleRef Examples.otherRef 3%positive 4%positive
               Examples.twoClients1 Examples.twoClients2
               two_extensions_first two_extensions_second))).
Defined.

Lemma invocations_in_sequence_witness :
  ensWalletActions exampleRef exampleStore = (2%positive, exampleStore1)
  ∧ ∃ r1 s1 r2 s2,
      invoke reverts exampleStore1 2%positive (nameOf commitName)
        Examples.exampleCommit noCalls = Some (r1, s1)
      ∧ invoke reverts exampleStore1 2%positive (nameOf registerName)
          exampleRegister s1 = Some (r2, s2)
      ∧ calls s2 = calls noCalls
          ++ [ {| callee := commitName; clientArg := exampleRef;
                  parametersArg := Examples.exampleCommit |};
               {| callee := registerName; clientArg := exampleRef;
                  parametersArg := exampleRegister |} ]
      ∧ (r1, world s1)
        = reverts commitName exampleRef Examples.exampleCommit (world noCalls)
      ∧ (r2, world s2)
        = reverts registerName exampleRef exampleRegister (world s1).
Proof.
  exact (conj WalletSpec.example_extension
          (invocations_in_sequence reverts exampleStore exampleRef 2%positive
             exampleStore1 commitName registerName Examples.exampleCommit
             exampleRegister noCalls WalletSpec.example_extension)).
Defined.

Lemma replaced_operation_witness :
  ensWalletActions exampleRef exampleStore = (2%positive, exampleStore1)
  ∧ (setProp 2%positive (nameOf setFuses) (VNumber 0) exampleStore1
       !! 2%positive ≫= Js.get (nameOf setFuses) = Some (VNumber 0))
  ∧ Js.keys <$> setProp 2%positive (nameOf setFuses) (VNumber 0) exampleStore1
                  !! 2%positive = Some operationNames
  ∧ (∀ g p s, g ≠ setFuses →
       invoke fulfils
         (setProp 2%positive (nameOf setFuses) (VNumber 0) exampleStore1)
         2%positive (nameOf g) p s
       = Some (callWrite fulfils g exampleRef p s))
  ∧ (∀ p s,
       invoke fulfils
         (setProp 2%positive (nameOf setFuses) (VNumber 0) exampleStore1)
         2%positive (nameOf setFuses) p s
       = applyValue fulfils (VNumber 0) p s)
  ∧ ∀ l, l ≠ 2%positive →
         setProp 2%positive (nameOf setFuses) (VNumber 0) exampleStore1 !! l
         = exampleStore1 !! l.
Proof.
  exact (conj WalletSpec.example_extension
          (replaced_operation fulfils exampleStore exampleRef 2%positive
             exampleStore1 setFuses (VNumber 0)
             WalletSpec.example_extension)).
Defined.

End DecoratorSpec.

(** ** Contract address resolution *)

Module ResolutionSpec.
Import Consts Wallet Resolution.

Lemma resolve_supported (chain role : string) :
  chain ∈ supportedChains → role ∈ supportedContracts →
  ∃ a, resolveContractAddress chain role = inr a
       ∧ contractOf chain role = Some {| address := a |}
       ∧ isAddress a = true.
Proof.
  intros Hc Hr.
  destruct (DirectorySpec.contractOf_defined chain role Hc Hr) as (a & Ha & Hok).
  exists a. unfold resolveContractAddress.
  by rewrite decide_True, Ha.
Qed.

(** On a supported chain the operation reaches the submission primitive,
    with the address of the table. *)
Lemma supported_chain_submits {World E : Type}
    (chainOf : loc → string) (roleOf : WriteFn → string)
    (submitWrite :
       string → WriteFn → loc → gmap string Value → World → Settled E * World)
    (h : gmap loc Obj) (client o : loc) h' (f : WriteFn)
    (p : gmap string Value) (s : Ext World) :
  chainOf client ∈ supportedChains → roleOf f ∈ supportedContracts →
  ensWalletActions client h = (o, h') →
  ∃ a r s',
    contractOf (chainOf client) (roleOf f) = Some {| address := a |}
    ∧ invoke (writeVia chainOf roleOf submitWrite) h' o (nameOf f) p s
      = Some (r, s')
    ∧ world s' = (submitWrite a f client p (world s)).2.
Proof.
  intros Hc Hr Hext.
  destruct (resolve_supported _ _ Hc Hr) as (a & Hres & Ha & _).
  rewrite (WalletSpec.invoke_actions _ _ _ _ _ _ _ _ Hext).
  unfold callWrite, writeVia. rewrite Hres.
  exists a.
  destruct (submitWrite a f client p (world s)) as [r w'] eqn:Hs.
  eexists _, _. split; [exact Ha|]. split; [reflexivity|]. simpl.
  reflexivity.
Qed.

Lemma homestead_submits :
  invoke (writeVia (λ _, "homestead") (λ _, "ensNameWrapper") reportsAddress)
    exampleStore1 2%positive "wrapName" exampleRegister nothingSubmitted
  = Some (Fulfilled (VString "0x1d4b"),
          {| world := [ "0xD4416b13d2b3a9aBae7AcD5D6C2BbDBE25686401" ];
             calls := [ {| callee := wrapName; clientArg := exampleRef;
                           parametersArg := exampleRegister |} ] |}).
Proof. reflexivity. Qed.

Lemma sepolia_submits_nothing :
  invoke (writeVia (λ _, "sepolia") (λ _, "ensNameWrapper") reportsAddress)
    exampleStore1 2%positive "wrapName" exampleRegister nothingSubmitted
  = Some (Rejected (inl (UnsupportedChain "sepolia")),
          {| world := [];
             calls := [ {| callee := wrapName; clientArg := exampleRef;
                           parametersArg := exampleRegister |} ] |}).
Proof. reflexivity. Qed.



End ResolutionSpec.
